(** * Before/after image comparison: the compositor of [app.py]

    A shallow embedding of [create_before_after_comparison] (app.py, lines
    6-44) and the properties of its result.

    The function receives two PIL images and a slider position, converts both
    images to numpy arrays, crops them to their common extent, copies the
    first, overwrites the columns right of the boundary with the second,
    paints a white line at the boundary and wraps the array in a new image.

    Modelling decisions:
    - Images and arrays live in a heap of pixel buffers; an [ndarray] value is
      a window onto a buffer, so that basic slicing yields views that share
      memory, as in numpy, and [np.array], [np.copy] and [Image.fromarray]
      allocate.
    - Arrays are three-dimensional, (rows, columns, channels), the layout
      [np.array] gives every multi-band image (RGB, RGBA, ...); a pixel is the
      list of its channel samples.  Single-band images, which [np.array] turns
      into two-dimensional arrays, are outside the model.
    - numpy's shape check on assignment (broadcasting) is modelled; a failed
      check raises [ValueError] and leaves the heap as it is at that point.
    - [slider_position] is a Python float.  Every finite float is a rational
      and the model computes [width * slider_position] exactly, in [Q];
      [int] truncates toward zero as Python's does.  Rounding of the product
      to the nearest float is not modelled. *)

From Stdlib Require Import ZArith QArith Qround Lia.
From stdpp Require Import base list.

Local Open Scope Z_scope.

(** ** Pixel buffers and the heap *)

(** One grid cell: its channel samples (uint8 in the program). *)
Definition pixel := list Z.

(** The memory of an image or of an array that owns its data. *)
Record buffer := Buffer {
  b_rows : nat;                 (* shape[0] *)
  b_cols : nat;                 (* shape[1] *)
  b_chans : nat;                (* shape[2] *)
  b_data : list (list pixel)    (* row-major *)
}.

Abbreviation loc := nat (only parsing).
Abbreviation heap := (list buffer) (only parsing).

(** A numpy array: the window of [nrows] x [ncols] cells at ([row0],[col0])
    of the buffer at [base].  [nrows] and [ncols] are [shape[0]] and
    [shape[1]]. *)
Record ndarray := NdArray {
  base : loc;
  row0 : nat;
  nrows : nat;
  col0 : nat;
  ncols : nat
}.

(** Shape consistency of a buffer, as every numpy array has it. *)
Definition wf_row (b : buffer) (row : list pixel) : bool :=
  (length row =? b_cols b)%nat && forallb (fun p => (length p =? b_chans b)%nat) row.

Definition wf_buffer (b : buffer) : bool :=
  (length (b_data b) =? b_rows b)%nat && forallb (wf_row b) (b_data b).

(** ** Exceptions and the state monad *)

Inductive exn :=
| ValueError      (* numpy: could not broadcast input array *)
| BadReference.   (* a location outside the heap; no live Python object has one *)

Definition M (A : Type) : Type := heap -> heap * (exn + A).

Definition ret {A} (x : A) : M A := fun h => (h, inr x).

Definition bind {A B} (m : M A) (k : A -> M B) : M B :=
  fun h => match m h with
           | (h', inr x) => k x h'
           | (h', inl e) => (h', inl e)
           end.

Definition raise {A} (e : exn) : M A := fun h => (h, inl e).

Notation "x <- m ;; k" := (bind m (fun x => k))
  (at level 100, m at next level, right associativity).
Notation "m ;;; k" := (bind m (fun _ => k))
  (at level 100, right associativity).

Definition load (l : loc) : M buffer :=
  fun h => match h !! l with
           | Some b => (h, inr b)
           | None => (h, inl BadReference)
           end.

Definition alloc (b : buffer) : M loc :=
  fun h => (h ++ [b], inr (length h)).

(** Every [store] below follows a [load] of the same location, so the
    location is in range. *)
Definition store (l : loc) (b : buffer) : M unit :=
  fun h => (<[l := b]> h, inr tt).

(** ** Python slices *)

(** [start:stop] with either bound possibly omitted. *)
Definition slice := (option Z * option Z)%type.

(** A bound is counted from the end when negative and clipped to [0, n]. *)
Definition clip_index (n : nat) (i : Z) : nat :=
  if i <? 0 then Z.to_nat (Z.max 0 (i + Z.of_nat n))
  else Z.to_nat (Z.min i (Z.of_nat n)).

(** [slice.indices(n)] for step 1: first index and number of indices. *)
Definition slice_indices (s : slice) (n : nat) : nat * nat :=
  let start := match fst s with Some i => clip_index n i | None => 0%nat end in
  let stop := match snd s with Some i => clip_index n i | None => n end in
  (start, (stop - start)%nat).

(** ** The numpy and PIL operations the function uses *)

(** Cells of a window, as a grid. *)
Definition window (a : ndarray) (d : list (list pixel)) : list (list pixel) :=
  (fun row => take (ncols a) (drop (col0 a) row)) <$> take (nrows a) (drop (row0 a) d).

(** Contents of an array as a buffer of its own shape. *)
Definition read (a : ndarray) : M buffer :=
  b <- load (base a) ;;
  ret (Buffer (nrows a) (ncols a) (b_chans b) (window a (b_data b))).

(** [np.array(image)]: a new array holding a copy of the image's pixels. *)
Definition np_array (image : loc) : M ndarray :=
  b <- load image ;;
  l <- alloc b ;;
  ret (NdArray l 0 (b_rows b) 0 (b_cols b)).

(** [a[rs, cs]] with two slices: a view on the same buffer. *)
Definition getitem (a : ndarray) (rs cs : slice) : ndarray :=
  let '(r, nr) := slice_indices rs (nrows a) in
  let '(c, nc) := slice_indices cs (ncols a) in
  NdArray (base a) (row0 a + r) nr (col0 a + c) nc.

(** [np.copy(a)]: a new array that owns a copy of the cells of [a]. *)
Definition np_copy (a : ndarray) : M ndarray :=
  v <- read a ;;
  l <- alloc v ;;
  ret (NdArray l 0 (nrows a) 0 (ncols a)).

(** Broadcasting along one axis: a source of extent [s] fills a target of
    extent [d] when the extents agree or the source has extent 1. *)
Definition broadcastable (d s : nat) : bool := (s =? d)%nat || (s =? 1)%nat.

Definition stretch {A} (d : nat) (l : list A) : list A :=
  if (length l =? d)%nat then l
  else match l with
       | x :: _ => replicate d x
       | [] => []
       end.

(** Overwrite the cells of window [a] in the grid [d] by the grid [new]. *)
Definition write_row (a : ndarray) (row new : list pixel) : list pixel :=
  take (col0 a) row ++ new ++ drop (col0 a + ncols a) row.

Definition write_window (a : ndarray) (d new : list (list pixel)) : list (list pixel) :=
  take (row0 a) d
  ++ zip_with (write_row a) (take (nrows a) (drop (row0 a) d)) new
  ++ drop (row0 a + nrows a) d.

(** [a[...] = src] for an array [src] of the same number of dimensions. *)
Definition setitem_array (a src : ndarray) : M unit :=
  b <- load (base a) ;;
  v <- read src ;;
  if broadcastable (nrows a) (b_rows v) && broadcastable (ncols a) (b_cols v)
     && broadcastable (b_chans b) (b_chans v)
  then
    let new := stretch (nrows a)
                 ((fun row => stretch (ncols a) (stretch (b_chans b) <$> row)) <$> b_data v) in
    store (base a) (Buffer (b_rows b) (b_cols b) (b_chans b) (write_window a (b_data b) new))
  else raise ValueError.

(** [a[...] = [v0, v1, ...]]: the list is a one-dimensional array, matched
    against the channel axis. *)
Definition setitem_list (a : ndarray) (v : list Z) : M unit :=
  b <- load (base a) ;;
  if broadcastable (b_chans b) (length v)
  then
    let new := replicate (nrows a) (replicate (ncols a) (stretch (b_chans b) v)) in
    store (base a) (Buffer (b_rows b) (b_cols b) (b_chans b) (write_window a (b_data b) new))
  else raise ValueError.

(** [Image.fromarray(a)]: a new image with the cells of [a].  (Pillow knows
    the layout of [a], which is that of the images the arrays came from.) *)
Definition Image_fromarray (a : ndarray) : M loc :=
  v <- read a ;;
  alloc v.

(** ** The function *)

(** [int(x)] on a float: truncation toward zero. *)
Definition py_int (x : Q) : Z := Z.quot (Qnum x) (Zpos (Qden x)).

(** Line 32: [boundary_x = int(width * slider_position)]. *)
Definition boundary_x (width : nat) (slider_position : Q) : Z :=
  py_int (inject_Z (Z.of_nat width) * slider_position).

(** Line 38: [boundary_x > 0 and boundary_x < width - 1]. *)
Definition draws_line (width : nat) (bx : Z) : bool :=
  (0 <? bx) && (bx <? Z.of_nat width - 1).

(** Line 39. *)
Definition line_thickness : Z := 3.

(** Lines 40 and 41. *)
Definition start_x (bx : Z) : Z := Z.max 0 (bx - line_thickness / 2).
Definition end_x (width : nat) (bx : Z) : Z := Z.min (Z.of_nat width) (bx + line_thickness / 2).

(** The colour of line 42. *)
Definition white : list Z := [255; 255; 255].

(** Lines 20 to 44; the number of the source line stands beside each step.
    The two images are given by their locations in the heap, and so is the
    image returned. *)
Definition create_before_after_comparison
    (image1 image2 : loc) (slider_position : Q) : M loc :=
  img1_np <- np_array image1 ;;                                          (* 20 *)
  img2_np <- np_array image2 ;;                                          (* 21 *)
  let height := Nat.min (nrows img1_np) (nrows img2_np) in               (* 24 *)
  let width := Nat.min (ncols img1_np) (ncols img2_np) in                (* 24 *)
  let img1_np :=                                                         (* 25 *)
    getitem img1_np (None, Some (Z.of_nat height)) (None, Some (Z.of_nat width)) in
  let img2_np :=                                                         (* 26 *)
    getitem img2_np (None, Some (Z.of_nat height)) (None, Some (Z.of_nat width)) in
  result <- np_copy img1_np ;;                                           (* 29 *)
  let bx := boundary_x width slider_position in                          (* 32 *)
  setitem_array (getitem result (None, None) (Some bx, None))            (* 35 *)
                (getitem img2_np (None, None) (Some bx, None)) ;;;
  (if draws_line width bx                                                (* 38 *)
   then setitem_list                                                     (* 42 *)
          (getitem result (None, None) (Some (start_x bx), Some (end_x width bx)))
          white
   else ret tt) ;;;
  Image_fromarray result.                                                (* 44 *)

(** ** Notions for the statements: frames, grids and cells *)

(** The heap only grows, and what was there stays: the frame of a run. *)
Definition preserves (h h' : heap) : Prop :=
  (length h <= length h')%nat /\ forall l b, h !! l = Some b -> h' !! l = Some b.

(** [fresh_only h0 m P]: run from any heap that preserves [h0], the
    computation [m] again preserves [h0], and a value it returns satisfies
    [P].  [P] carries the fact that a location is not one of [h0]. *)
Definition fresh_only {A} (h0 : heap) (m : M A) (P : A -> Prop) : Prop :=
  forall h, preserves h0 h ->
    preserves h0 (fst (m h)) /\ forall x, snd (m h) = inr x -> P x.

(** What a computation leaves when it returns. *)
Definition yields {A} (m : M A) (Q : heap -> A -> Prop) : Prop :=
  forall h h' x, m h = (h', inr x) -> Q h' x.

Definition cell (d : list (list pixel)) (r c : nat) : option pixel :=
  match d !! r with
  | Some row => row !! c
  | None => None
  end.

(** [d] has [h] rows of [w] cells each. *)
Definition grid_dims (h w : nat) (d : list (list pixel)) : Prop :=
  length d = h /\ Forall (fun row => length row = w) d.

(** The view [a[:, bx:]] of a [height] x [width] array at [l]. *)
Definition split_view (l : nat) (height width : nat) (bx : Z) : ndarray :=
  NdArray l 0 height (clip_index width bx) (width - clip_index width bx).

(** The view [a[:, start_x:end_x]] of a [height] x [width] array at [l]. *)
Definition line_view (l : nat) (height width : nat) (bx : Z) : ndarray :=
  NdArray l 0 height (clip_index width (start_x bx))
    (clip_index width (end_x width bx) - clip_index width (start_x bx)).

(** [result] after line 35, from the data of the two images. *)
Definition split_grid (height width : nat) (bx : Z) (dA dB : list (list pixel)) :=
  write_window (split_view 0 height width bx)
    (window (NdArray 0 0 height 0 width) dA)
    (window (split_view 0 height width bx) dB).

(** [result] after line 42, from [result] after line 35. *)
Definition line_grid (height width : nat) (bx : Z) (d : list (list pixel)) :=
  write_window (line_view 0 height width bx) d
    (replicate height (replicate (ncols (line_view 0 height width bx)) white)).

(** The columns [start_x <= c < end_x] of line 42, as a test on a column. *)
Definition in_line (width : nat) (bx : Z) (c : nat) : bool :=
  (start_x bx <=? Z.of_nat c) && (Z.of_nat c <? end_x width bx).

(** The column test of the slice [boundary_x:] of line 35. *)
Definition from_image2 (width : nat) (bx : Z) (c : nat) : bool :=
  (clip_index width bx <=? c)%nat.

(** The pixel the function leaves at row [r], column [c], from the data of
    the two images: line 42 over line 35 over line 29. *)
Definition composite_cell (A B : buffer) (width : nat) (bx : Z) (r c : nat) : option pixel :=
  if draws_line width bx && in_line width bx c then Some white
  else if from_image2 width bx c then cell (b_data B) r c
  else cell (b_data A) r c.

(** The pixel of the image at [l]. *)
Definition pixel_at (h : heap) (l : loc) (r c : nat) : option pixel :=
  match h !! l with
  | Some b => cell (b_data b) r c
  | None => None
  end.

(** Equal extents and equal channel layout. *)
Definition same_shape (A B : buffer) : Prop :=
  b_rows A = b_rows B /\ b_cols A = b_cols B /\ b_chans A = b_chans B.

(** The buffer of the image a run returned, if it returned one. *)
Definition returned (o : heap * (exn + loc)) : option buffer :=
  match o with
  | (h', inr out) => h' !! out
  | (_, inl _) => None
  end.

(** ** Sample heaps *)

(** An image of one colour. *)
Definition solid (h w : nat) (p : pixel) : buffer :=
  Buffer h w (length p) (replicate h (replicate w p)).

(** An RGB image whose pixel at row [r], column [c] is
    ([v + 10 r + c], 0, 0): every cell tells where it came from. *)
Definition ramp (h w : nat) (v : Z) : buffer :=
  Buffer h w 3
    (map (fun r => map (fun c => [v + 10 * Z.of_nat r + Z.of_nat c; 0; 0]) (seq 0 w))
         (seq 0 h)).

Definition demo_heap : heap := [solid 1 10 [1; 1; 1]; solid 1 10 [9; 9; 9]].

Definition rgba_heap : heap := [solid 1 3 [1; 1; 1; 255]; solid 1 3 [9; 9; 9; 255]].

(** Two 2 x 8 RGB images. *)
Definition line_heap : heap := [solid 2 8 [10; 20; 30]; solid 2 8 [40; 50; 60]].

Definition ramp_heap : heap := [ramp 3 4 0; ramp 2 6 100].

(** ** Sample runs *)

(** Two 2 x 5 images at 0.5: [boundary_x = int(2.5) = 2], the columns from 2
    on come from the second image, and columns 1 and 2 are painted. *)
Example run_ramp_half :
  b_data <$> returned (create_before_after_comparison 0 1 (1 # 2) [ramp 2 5 0; ramp 2 5 100])
  = Some [[[0; 0; 0]; white; white; [103; 0; 0]; [104; 0; 0]];
          [[10; 0; 0]; white; white; [113; 0; 0]; [114; 0; 0]]].
Proof. reflexivity. Qed.

(** A 3 x 4 and a 2 x 6 image at 0.25: both are cropped to 2 x 4 from the
    top-left corner, [boundary_x = 1], and columns 0 and 1 are painted. *)
Example run_ramp_crop :
  returned (create_before_after_comparison 0 1 (1 # 4) [ramp 3 4 0; ramp 2 6 100])
  = Some (Buffer 2 4 3
            [[white; white; [102; 0; 0]; [103; 0; 0]];
             [white; white; [112; 0; 0]; [113; 0; 0]]]).
Proof. reflexivity. Qed.

(** At 0.75 on width 4, [boundary_x = 3 = width - 1]: no line. *)
Example run_ramp_last_column :
  b_data <$> returned (create_before_after_comparison 0 1 (3 # 4) [ramp 1 4 0; ramp 1 4 100])
  = Some [[[0; 0; 0]; [1; 0; 0]; [2; 0; 0]; [103; 0; 0]]].
Proof. reflexivity. Qed.

(** A negative fraction counts the boundary from the right edge:
    [int(5 * -0.5) = -2]. *)
Example run_ramp_negative :
  b_data <$> returned (create_before_after_comparison 0 1 (-1 # 2) [ramp 1 5 0; ramp 1 5 100])
  = Some [[[0; 0; 0]; [1; 0; 0]; [2; 0; 0]; [103; 0; 0]; [104; 0; 0]]].
Proof. reflexivity. Qed.

(** The heap after a run: the two images, the two arrays of lines 20 and 21,
    [result], and the image returned. *)
Example run_heap_size :
  length (fst (create_before_after_comparison 0 1 (1 # 2) [ramp 2 5 0; ramp 2 5 100])) = 6%nat.
Proof. reflexivity. Qed.

(** ** Symbolic execution of the primitives *)

Lemma bind_ok {A B} (m : M A) (k : A -> M B) h h' x :
  m h = (h', inr x) -> bind m k h = k x h'.
Proof. intros E. unfold bind. now rewrite E. Qed.

Lemma load_ok (h : heap) l b : h !! l = Some b -> load l h = (h, inr b).
Proof. intros E. unfold load. now rewrite E. Qed.

Lemma preserves_refl h : preserves h h.
Proof. split; auto. Qed.

Lemma preserves_alloc h h' b : preserves h h' -> preserves h (h' ++ [b]).
Proof.
  intros [Hlen Hkeep]. split.
  - rewrite length_app. simpl. lia.
  - intros l x Hl. apply lookup_app_l_Some. auto.
Qed.

Lemma preserves_store h h' l b :
  (length h <= l)%nat -> preserves h h' -> preserves h (<[l := b]> h').
Proof.
  intros Hfresh [Hlen Hkeep]. split.
  - rewrite length_insert. lia.
  - intros l' x Hl. rewrite list_lookup_insert_ne.
    + auto.
    + apply lookup_lt_Some in Hl. lia.
Qed.

Lemma fresh_only_ret {A} h0 (x : A) (P : A -> Prop) : P x -> fresh_only h0 (ret x) P.
Proof. intros Hx h Hh. split; [exact Hh | now intros y [= <-]]. Qed.

Lemma fresh_only_raise {A} h0 e (P : A -> Prop) : fresh_only h0 (raise e) P.
Proof. intros h Hh. split; [exact Hh | discriminate]. Qed.

Lemma fresh_only_load h0 l : fresh_only h0 (load l) (fun _ => True).
Proof. intros h Hh. unfold load. destruct (h !! l); split; auto. Qed.

Lemma fresh_only_alloc h0 b : fresh_only h0 (alloc b) (fun l => (length h0 <= l)%nat).
Proof.
  intros h Hh. split.
  - now apply preserves_alloc.
  - intros l [= <-]. apply Hh.
Qed.

Lemma fresh_only_store h0 l b :
  (length h0 <= l)%nat -> fresh_only h0 (store l b) (fun _ => True).
Proof. intros Hl h Hh. split; [now apply preserves_store | auto]. Qed.

Lemma fresh_only_bind {A B} h0 (m : M A) (k : A -> M B) P Q :
  fresh_only h0 m P -> (forall x, P x -> fresh_only h0 (k x) Q) ->
  fresh_only h0 (bind m k) Q.
Proof.
  intros Hm Hk h Hh. unfold bind.
  destruct (Hm h Hh) as [Hpre Hval]. destruct (m h) as [h' [e | x]]; simpl in *.
  - split; [exact Hpre | discriminate].
  - apply (Hk x); auto.
Qed.

Lemma fresh_only_weaken {A} h0 (m : M A) (P Q : A -> Prop) :
  (forall x, P x -> Q x) -> fresh_only h0 m P -> fresh_only h0 m Q.
Proof. intros HPQ Hm h Hh. destruct (Hm h Hh). split; auto. Qed.

Lemma fresh_only_read h0 a : fresh_only h0 (read a) (fun _ => True).
Proof.
  eapply fresh_only_bind; [apply fresh_only_load |].
  intros b _. now apply fresh_only_ret.
Qed.

Lemma fresh_only_np_array h0 image :
  fresh_only h0 (np_array image) (fun a => (length h0 <= base a)%nat).
Proof.
  eapply fresh_only_bind; [apply fresh_only_load |]. intros b _.
  eapply fresh_only_bind; [apply fresh_only_alloc |]. intros l Hl.
  now apply fresh_only_ret.
Qed.

Lemma fresh_only_np_copy h0 a :
  fresh_only h0 (np_copy a) (fun r => (length h0 <= base r)%nat).
Proof.
  eapply fresh_only_bind; [apply fresh_only_read |]. intros v _.
  eapply fresh_only_bind; [apply fresh_only_alloc |]. intros l Hl.
  now apply fresh_only_ret.
Qed.

Lemma base_getitem a rs cs : base (getitem a rs cs) = base a.
Proof.
  unfold getitem. destruct (slice_indices rs (nrows a)), (slice_indices cs (ncols a)).
  reflexivity.
Qed.

Lemma fresh_only_setitem_array h0 a src :
  (length h0 <= base a)%nat -> fresh_only h0 (setitem_array a src) (fun _ => True).
Proof.
  intros Ha.
  eapply fresh_only_bind; [apply fresh_only_load |]. intros b _.
  eapply fresh_only_bind; [apply fresh_only_read |]. intros v _.
  destruct (_ && _).
  - now apply fresh_only_store.
  - apply fresh_only_raise.
Qed.

Lemma fresh_only_setitem_list h0 a v :
  (length h0 <= base a)%nat -> fresh_only h0 (setitem_list a v) (fun _ => True).
Proof.
  intros Ha.
  eapply fresh_only_bind; [apply fresh_only_load |]. intros b _.
  destruct (broadcastable _ _).
  - now apply fresh_only_store.
  - apply fresh_only_raise.
Qed.

Lemma fresh_only_Image_fromarray h0 a :
  fresh_only h0 (Image_fromarray a) (fun _ => True).
Proof.
  eapply fresh_only_bind; [apply fresh_only_read |]. intros v _.
  eapply fresh_only_weaken; [| apply fresh_only_alloc]. auto.
Qed.

Lemma fresh_only_create h0 image1 image2 slider_position :
  fresh_only h0 (create_before_after_comparison image1 image2 slider_position)
    (fun _ => True).
Proof.
  unfold create_before_after_comparison.
  eapply fresh_only_bind; [apply fresh_only_np_array |]. intros img1_np _.
  eapply fresh_only_bind; [apply fresh_only_np_array |]. intros img2_np _.
  eapply fresh_only_bind; [apply fresh_only_np_copy |]. intros result Hres.
  eapply fresh_only_bind.
  { apply fresh_only_setitem_array. now rewrite base_getitem. }
  intros _ _. eapply fresh_only_bind.
  { destruct (draws_line _ _).
    - apply fresh_only_setitem_list. now rewrite base_getitem.
    - now apply fresh_only_ret. }
  intros _ _. apply fresh_only_Image_fromarray.
Qed.

(** ** Grids: cells, extents and windows *)

Lemma grid_dims_row h w d r row :
  grid_dims h w d -> d !! r = Some row -> length row = w.
Proof. intros [_ Hall] Hr. exact (proj1 (Forall_lookup _ _) Hall r row Hr). Qed.

Lemma grid_ext h w d1 d2 :
  grid_dims h w d1 -> grid_dims h w d2 ->
  (forall r c, (r < h)%nat -> (c < w)%nat -> cell d1 r c = cell d2 r c) ->
  d1 = d2.
Proof.
  intros G1 G2 Hcell. apply list_eq. intros r.
  destruct (d1 !! r) as [row1 |] eqn:E1, (d2 !! r) as [row2 |] eqn:E2.
  - f_equal. apply list_eq. intros c.
    pose proof (grid_dims_row _ _ _ _ _ G1 E1) as L1.
    pose proof (grid_dims_row _ _ _ _ _ G2 E2) as L2.
    destruct (decide (c < w)%nat) as [Hc | Hc].
    + assert (Hr : (r < h)%nat) by (apply lookup_lt_Some in E1; destruct G1; lia).
      specialize (Hcell r c Hr Hc). unfold cell in Hcell. now rewrite E1, E2 in Hcell.
    + rewrite !(proj2 (lookup_ge_None _ _)); auto; lia.
  - apply lookup_lt_Some in E1. apply lookup_ge_None in E2. destruct G1, G2. lia.
  - apply lookup_lt_Some in E2. apply lookup_ge_None in E1. destruct G1, G2. lia.
  - reflexivity.
Qed.

Lemma wf_buffer_dims b :
  wf_buffer b = true -> grid_dims (b_rows b) (b_cols b) (b_data b).
Proof.
  unfold wf_buffer. intros Hwf. apply andb_prop in Hwf as [Hlen Hrows].
  split.
  - now apply Nat.eqb_eq.
  - apply Forall_forall. intros row Hin.
    rewrite forallb_forall in Hrows. apply list_elem_of_In in Hin.
    specialize (Hrows row Hin). unfold wf_row in Hrows.
    apply andb_prop in Hrows as [Hw _]. now apply Nat.eqb_eq.
Qed.

Lemma wf_buffer_chans b r c p :
  wf_buffer b = true -> cell (b_data b) r c = Some p -> length p = b_chans b.
Proof.
  unfold wf_buffer, cell. intros Hwf Hc. apply andb_prop in Hwf as [_ Hrows].
  destruct (b_data b !! r) as [row |] eqn:Er; [| discriminate].
  rewrite forallb_forall in Hrows.
  assert (Hin : In row (b_data b)) by (apply list_elem_of_In, list_elem_of_lookup; eauto).
  specialize (Hrows row Hin). unfold wf_row in Hrows.
  apply andb_prop in Hrows as [_ Hp]. rewrite forallb_forall in Hp.
  apply Nat.eqb_eq, Hp, list_elem_of_In, list_elem_of_lookup. eauto.
Qed.

Lemma wf_buffer_intro h w ch d :
  grid_dims h w d ->
  (forall r c p, cell d r c = Some p -> length p = ch) ->
  wf_buffer (Buffer h w ch d) = true.
Proof.
  intros [Hlen Hall] Hch. unfold wf_buffer. simpl.
  apply andb_true_intro. split; [now apply Nat.eqb_eq |].
  apply forallb_forall. intros row Hin. apply list_elem_of_In in Hin.
  pose proof (proj1 (Forall_forall _ _) Hall row Hin) as Hw. simpl in Hw.
  apply list_elem_of_lookup in Hin as [r Hr].
  unfold wf_row. simpl. apply andb_true_intro. split; [now apply Nat.eqb_eq |].
  apply forallb_forall. intros p Hp.
  apply list_elem_of_In, list_elem_of_lookup in Hp as [c Hc].
  apply Nat.eqb_eq, (Hch r c). unfold cell. now rewrite Hr.
Qed.

Lemma cell_Some_lt h w d r c p :
  grid_dims h w d -> cell d r c = Some p -> (r < h)%nat /\ (c < w)%nat.
Proof.
  intros G Hc. unfold cell in Hc. destruct (d !! r) as [row |] eqn:Er; [| discriminate].
  pose proof (grid_dims_row _ _ _ _ _ G Er). apply lookup_lt_Some in Er, Hc.
  destruct G. lia.
Qed.

(** *** Reading a window *)

Lemma cell_window a d r c :
  (r < nrows a)%nat -> (c < ncols a)%nat ->
  cell (window a d) r c = cell d (row0 a + r) (col0 a + c).
Proof.
  intros Hr Hc. unfold cell, window.
  rewrite list_lookup_fmap, lookup_take_lt, lookup_drop by exact Hr.
  destruct (d !! (row0 a + r)%nat) as [row |]; simpl; [| reflexivity].
  now rewrite lookup_take_lt, lookup_drop.
Qed.

Lemma grid_dims_window a h w d :
  grid_dims h w d -> (row0 a + nrows a <= h)%nat -> (col0 a + ncols a <= w)%nat ->
  grid_dims (nrows a) (ncols a) (window a d).
Proof.
  intros [Hlen Hall] Hr Hc. unfold window. split.
  - rewrite length_fmap, length_take, length_drop. lia.
  - apply Forall_fmap, Forall_take, Forall_drop.
    eapply Forall_impl; [exact Hall |]. intros row Hrow. simpl in *.
    rewrite length_take, length_drop. lia.
Qed.

Lemma window_all l h w d :
  grid_dims h w d -> window (NdArray l 0 h 0 w) d = d.
Proof.
  intros G. apply (grid_ext h w); [| exact G |].
  - apply (grid_dims_window (NdArray l 0 h 0 w) h w); [exact G | simpl; lia ..].
  - intros r c Hr Hc. now rewrite cell_window.
Qed.

(** *** Writing a window *)

Lemma length_write_row a w row new :
  length row = w -> (col0 a + ncols a <= w)%nat -> length new = ncols a ->
  length (write_row a row new) = w.
Proof.
  intros Hrow Hfit Hnew. unfold write_row.
  rewrite !length_app, length_take, length_drop. lia.
Qed.

Lemma lookup_write_row a w row new c :
  length row = w -> (col0 a + ncols a <= w)%nat -> length new = ncols a ->
  write_row a row new !! c =
    if decide (col0 a <= c < col0 a + ncols a)%nat then new !! (c - col0 a)%nat else row !! c.
Proof.
  intros Hrow Hfit Hnew. unfold write_row.
  assert (Htake : length (take (col0 a) row) = col0 a) by (rewrite length_take; lia).
  destruct (decide (c < col0 a)%nat) as [Hlt | Hge].
  - rewrite lookup_app_l by lia. rewrite lookup_take_lt by lia.
    destruct (decide _); [lia | reflexivity].
  - rewrite lookup_app_r by lia. rewrite Htake.
    destruct (decide (c - col0 a < ncols a)%nat) as [Hin | Hout].
    + rewrite lookup_app_l by lia. destruct (decide _); [reflexivity | lia].
    + rewrite lookup_app_r by lia. rewrite lookup_drop, Hnew.
      destruct (decide _); [lia |]. f_equal. lia.
Qed.

Section WriteWindow.
Variables (a : ndarray) (h w : nat) (d new : list (list pixel)).
Hypothesis Hd : grid_dims h w d.
Hypothesis Hrows : (row0 a + nrows a <= h)%nat.
Hypothesis Hcols : (col0 a + ncols a <= w)%nat.
Hypothesis Hnew : grid_dims (nrows a) (ncols a) new.

Lemma lookup_write_window r :
  write_window a d new !! r =
    if decide (row0 a <= r < row0 a + nrows a)%nat
    then match d !! r, new !! (r - row0 a)%nat with
         | Some row, Some nrow => Some (write_row a row nrow)
         | _, _ => None
         end
    else d !! r.
Proof.
  destruct Hd as [Hlen _], Hnew as [Hnlen _]. unfold write_window.
  assert (Htake : length (take (row0 a) d) = row0 a) by (rewrite length_take; lia).
  assert (Hzip : length (zip_with (write_row a) (take (nrows a) (drop (row0 a) d)) new)
                 = nrows a).
  { rewrite length_zip_with, length_take, length_drop. lia. }
  destruct (decide (r < row0 a)%nat) as [Hlt | Hge].
  - rewrite lookup_app_l by lia. rewrite lookup_take_lt by lia.
    destruct (decide _); [lia | reflexivity].
  - rewrite lookup_app_r by lia. rewrite Htake.
    destruct (decide (r - row0 a < nrows a)%nat) as [Hin | Hout].
    + rewrite lookup_app_l by lia. rewrite lookup_zip_with.
      rewrite lookup_take_lt, lookup_drop by lia.
      replace (row0 a + (r - row0 a))%nat with r by lia.
      destruct (decide _); [| lia].
      destruct (d !! r); simpl; [| reflexivity].
      now destruct (new !! (r - row0 a)%nat).
    + rewrite lookup_app_r by lia. rewrite lookup_drop, Hzip.
      destruct (decide _); [lia |]. f_equal. lia.
Qed.

Lemma grid_dims_write_window : grid_dims h w (write_window a d new).
Proof.
  split.
  - destruct Hd as [Hlen _], Hnew as [Hnlen _]. unfold write_window.
    rewrite !length_app, length_zip_with, !length_take, !length_drop. lia.
  - apply Forall_lookup. intros r row Hr. rewrite lookup_write_window in Hr.
    destruct (decide _) as [Hin | Hout].
    + destruct (d !! r) as [old |] eqn:Eold; [| discriminate].
      destruct (new !! (r - row0 a)%nat) as [nrow |] eqn:Enew; [| discriminate].
      injection Hr as <-. apply length_write_row; auto.
      * exact (grid_dims_row _ _ _ _ _ Hd Eold).
      * exact (grid_dims_row _ _ _ _ _ Hnew Enew).
    + exact (grid_dims_row _ _ _ _ _ Hd Hr).
Qed.

Lemma cell_write_window r c :
  cell (write_window a d new) r c =
    if decide ((row0 a <= r < row0 a + nrows a)%nat /\ (col0 a <= c < col0 a + ncols a)%nat)
    then cell new (r - row0 a) (c - col0 a)
    else cell d r c.
Proof.
  unfold cell at 1. rewrite lookup_write_window.
  destruct (decide (row0 a <= r < row0 a + nrows a)%nat) as [Hr | Hr].
  - destruct (lookup_lt_is_Some_2 d r) as [row Erow]; [destruct Hd; lia |].
    destruct (lookup_lt_is_Some_2 new (r - row0 a)) as [nrow Enrow]; [destruct Hnew; lia |].
    rewrite Erow, Enrow.
    rewrite (lookup_write_row a w); auto.
    + unfold cell. rewrite Erow, Enrow.
      destruct (decide (col0 a <= c < _)%nat); destruct (decide (_ /\ _)); tauto || reflexivity.
    + exact (grid_dims_row _ _ _ _ _ Hd Erow).
    + exact (grid_dims_row _ _ _ _ _ Hnew Enrow).
  - destruct (decide (_ /\ _)); [tauto | reflexivity].
Qed.
End WriteWindow.

(** *** Slices and broadcasting on arrays of matching shape *)

Lemma clip_index_le n i : (clip_index n i <= n)%nat.
Proof. unfold clip_index. destruct (i <? 0) eqn:E; lia. Qed.

Lemma clip_index_nonneg n i : 0 <= i -> clip_index n i = Nat.min (Z.to_nat i) n.
Proof. intros Hi. unfold clip_index. destruct (i <? 0) eqn:E; lia. Qed.

Lemma clip_index_of_nat n k : (k <= n)%nat -> clip_index n (Z.of_nat k) = k.
Proof. intros Hk. rewrite clip_index_nonneg; lia. Qed.

Lemma getitem_crop l rows cols height width :
  (height <= rows)%nat -> (width <= cols)%nat ->
  getitem (NdArray l 0 rows 0 cols)
          (None, Some (Z.of_nat height)) (None, Some (Z.of_nat width))
  = NdArray l 0 height 0 width.
Proof.
  intros Hh Hw. unfold getitem, slice_indices. simpl.
  rewrite !clip_index_of_nat, !Nat.sub_0_r by assumption. reflexivity.
Qed.

Lemma getitem_columns l height width i j :
  getitem (NdArray l 0 height 0 width) (None, None) (i, j)
  = NdArray l 0 height
      (fst (slice_indices (i, j) width)) (snd (slice_indices (i, j) width)).
Proof. unfold getitem. simpl. now rewrite Nat.sub_0_r. Qed.

Lemma stretch_id {A} d (l : list A) : length l = d -> stretch d l = l.
Proof. intros <-. unfold stretch. now rewrite Nat.eqb_refl. Qed.

Lemma fmap_fixed {A} (f : A -> A) (l : list A) :
  (forall i x, l !! i = Some x -> f x = x) -> f <$> l = l.
Proof.
  intros Hf. apply list_eq. intros i. rewrite list_lookup_fmap.
  destruct (l !! i) as [x |] eqn:E; simpl; [| reflexivity].
  now rewrite (Hf i x E).
Qed.

Lemma stretch_grid h w ch (g : list (list pixel)) :
  grid_dims h w g ->
  (forall r c p, cell g r c = Some p -> length p = ch) ->
  stretch h ((fun row => stretch w (stretch ch <$> row)) <$> g) = g.
Proof.
  intros G Hch.
  rewrite stretch_id by (rewrite length_fmap; apply G).
  apply fmap_fixed. intros r row Hr.
  assert (Hpix : stretch ch <$> row = row).
  { apply fmap_fixed. intros c p Hc. apply stretch_id, (Hch r c).
    unfold cell. now rewrite Hr. }
  rewrite Hpix. apply stretch_id. exact (grid_dims_row _ _ _ _ _ G Hr).
Qed.

Lemma broadcastable_refl d : broadcastable d d = true.
Proof. unfold broadcastable. now rewrite Nat.eqb_refl. Qed.

(** *** The primitives on a heap whose relevant cells are known *)

Lemma read_run (h : heap) a b :
  h !! base a = Some b ->
  read a h = (h, inr (Buffer (nrows a) (ncols a) (b_chans b) (window a (b_data b)))).
Proof. intros Hb. unfold read. now rewrite (bind_ok _ _ _ _ _ (load_ok _ _ _ Hb)). Qed.

Lemma np_array_run (h : heap) image b :
  h !! image = Some b ->
  np_array image h = (h ++ [b], inr (NdArray (length h) 0 (b_rows b) 0 (b_cols b))).
Proof. intros Hb. unfold np_array. now rewrite (bind_ok _ _ _ _ _ (load_ok _ _ _ Hb)). Qed.

Lemma np_copy_run (h : heap) a b :
  h !! base a = Some b ->
  np_copy a h =
    (h ++ [Buffer (nrows a) (ncols a) (b_chans b) (window a (b_data b))],
     inr (NdArray (length h) 0 (nrows a) 0 (ncols a))).
Proof. intros Hb. unfold np_copy. now rewrite (bind_ok _ _ _ _ _ (read_run _ _ _ Hb)). Qed.

Lemma Image_fromarray_run (h : heap) a b :
  h !! base a = Some b ->
  Image_fromarray a h =
    (h ++ [Buffer (nrows a) (ncols a) (b_chans b) (window a (b_data b))], inr (length h)).
Proof. intros Hb. unfold Image_fromarray. now rewrite (bind_ok _ _ _ _ _ (read_run _ _ _ Hb)). Qed.

Lemma setitem_array_run (h : heap) a src b sb :
  h !! base a = Some b -> h !! base src = Some sb ->
  b_chans sb = b_chans b ->
  nrows src = nrows a -> ncols src = ncols a ->
  grid_dims (nrows a) (ncols a) (window src (b_data sb)) ->
  (forall r c p, cell (window src (b_data sb)) r c = Some p -> length p = b_chans b) ->
  setitem_array a src h =
    (<[base a := Buffer (b_rows b) (b_cols b) (b_chans b)
                   (write_window a (b_data b) (window src (b_data sb)))]> h, inr tt).
Proof.
  intros Hb Hsb Hch Hr Hc G Hpix. unfold setitem_array.
  rewrite (bind_ok _ _ _ _ _ (load_ok _ _ _ Hb)).
  rewrite (bind_ok _ _ _ _ _ (read_run _ _ _ Hsb)). simpl.
  rewrite Hr, Hc, Hch, !broadcastable_refl. simpl.
  now rewrite (stretch_grid _ _ _ _ G Hpix).
Qed.

Lemma setitem_list_run (h : heap) a v b :
  h !! base a = Some b ->
  setitem_list a v h =
    if (length v =? b_chans b)%nat
    then (<[base a := Buffer (b_rows b) (b_cols b) (b_chans b)
                        (write_window a (b_data b)
                           (replicate (nrows a) (replicate (ncols a) v)))]> h, inr tt)
    else if (length v =? 1)%nat
    then (<[base a := Buffer (b_rows b) (b_cols b) (b_chans b)
                        (write_window a (b_data b)
                           (replicate (nrows a) (replicate (ncols a) (stretch (b_chans b) v))))]> h,
          inr tt)
    else (h, inl ValueError).
Proof.
  intros Hb. unfold setitem_list.
  rewrite (bind_ok _ _ _ _ _ (load_ok _ _ _ Hb)). unfold broadcastable.
  destruct (length v =? b_chans b)%nat eqn:E; simpl.
  - apply Nat.eqb_eq in E. now rewrite stretch_id.
  - now destruct (length v =? 1)%nat.
Qed.

Lemma grid_dims_replicate h w (p : pixel) : grid_dims h w (replicate h (replicate w p)).
Proof.
  split; [apply length_replicate |].
  apply Forall_replicate. apply length_replicate.
Qed.

Lemma cell_replicate h w (p : pixel) r c :
  (r < h)%nat -> (c < w)%nat -> cell (replicate h (replicate w p)) r c = Some p.
Proof.
  intros Hr Hc. unfold cell.
  rewrite lookup_replicate_2 by exact Hr. now apply lookup_replicate_2.
Qed.

Lemma grid_dims_crop l height width A :
  wf_buffer A = true -> (height <= b_rows A)%nat -> (width <= b_cols A)%nat ->
  grid_dims height width (window (NdArray l 0 height 0 width) (b_data A)).
Proof.
  intros WA Hh Hw.
  apply (grid_dims_window (NdArray l 0 height 0 width) (b_rows A) (b_cols A));
    [now apply wf_buffer_dims | simpl; lia ..].
Qed.

Lemma grid_dims_split_src l height width bx B :
  wf_buffer B = true -> (height <= b_rows B)%nat -> (width <= b_cols B)%nat ->
  grid_dims height (width - clip_index width bx)
    (window (split_view l height width bx) (b_data B)).
Proof.
  intros WB Hh Hw. pose proof (clip_index_le width bx).
  apply (grid_dims_window (split_view l height width bx) (b_rows B) (b_cols B));
    [now apply wf_buffer_dims | simpl; lia ..].
Qed.

Lemma grid_dims_split_grid height width bx A B :
  wf_buffer A = true -> wf_buffer B = true ->
  (height <= b_rows A)%nat -> (width <= b_cols A)%nat ->
  (height <= b_rows B)%nat -> (width <= b_cols B)%nat ->
  grid_dims height width (split_grid height width bx (b_data A) (b_data B)).
Proof.
  intros WA WB HhA HwA HhB HwB. pose proof (clip_index_le width bx).
  apply grid_dims_write_window; simpl; try lia.
  - now apply grid_dims_crop.
  - now apply grid_dims_split_src.
Qed.

Lemma grid_dims_line_grid height width bx d :
  grid_dims height width d -> grid_dims height width (line_grid height width bx d).
Proof.
  intros G.
  pose proof (clip_index_le width (start_x bx)).
  pose proof (clip_index_le width (end_x width bx)).
  apply grid_dims_write_window; simpl; try lia.
  - exact G.
  - apply grid_dims_replicate.
Qed.

(** ** The run of the function on two images of the same channel count *)

Lemma lookup_fresh (h ext : heap) k :
  (h ++ ext) !! (length h + k)%nat = ext !! k.
Proof. rewrite lookup_app_r by lia. f_equal. lia. Qed.

Lemma create_run (h : heap) image1 image2 A B f :
  h !! image1 = Some A -> h !! image2 = Some B ->
  wf_buffer A = true -> wf_buffer B = true -> b_chans A = b_chans B ->
  let height := Nat.min (b_rows A) (b_rows B) in
  let width := Nat.min (b_cols A) (b_cols B) in
  let bx := boundary_x width f in
  let R1 := Buffer height width (b_chans A) (split_grid height width bx (b_data A) (b_data B)) in
  let R2 := Buffer height width (b_chans A) (line_grid height width bx (b_data R1)) in
  create_before_after_comparison image1 image2 f h =
    if draws_line width bx
    then if (b_chans A =? 3)%nat
         then (h ++ [A; B; R2; R2], inr (length h + 3)%nat)
         else (h ++ [A; B; R1], inl ValueError)
    else (h ++ [A; B; R1; R1], inr (length h + 3)%nat).
Proof.
  intros H1 H2 WA WB HC height width bx R1 R2.
  unfold create_before_after_comparison.
  rewrite (bind_ok _ _ _ _ _ (np_array_run _ _ _ H1)).
  rewrite (bind_ok _ _ _ _ _ (np_array_run _ _ _ (lookup_app_l_Some _ [A] _ _ H2))).
  cbn [nrows ncols]. fold height width.
  rewrite !getitem_crop by (subst height width; lia).
  rewrite <- app_assoc, length_app. simpl app. simpl length.
  (* result = np.copy(img1_np) *)
  assert (L0 : (h ++ [A; B]) !! (length h) = Some A) by apply list_lookup_middle, eq_refl.
  rewrite (bind_ok _ _ _ _ _ (np_copy_run _ (NdArray (length h) 0 height 0 width) _ L0)).
  cbn [nrows ncols]. rewrite <- app_assoc, length_app. simpl app. simpl length.
  set (R0 := Buffer height width (b_chans A) (window (NdArray (length h) 0 height 0 width) (b_data A))).
  fold bx. rewrite !getitem_columns. cbn [slice_indices fst snd].
  fold (split_view (length h + 2) height width bx).
  fold (split_view (length h + 1) height width bx).
  fold (line_view (length h + 2) height width bx).
  (* result[:, boundary_x:] = img2_np[:, boundary_x:] *)
  assert (L2 : (h ++ [A; B; R0]) !! (length h + 2)%nat = Some R0) by apply lookup_fresh.
  assert (L1 : (h ++ [A; B; R0]) !! (length h + 1)%nat = Some B) by apply lookup_fresh.
  assert (HhA : (height <= b_rows A)%nat) by apply Nat.le_min_l.
  assert (HhB : (height <= b_rows B)%nat) by apply Nat.le_min_r.
  assert (HwA : (width <= b_cols A)%nat) by apply Nat.le_min_l.
  assert (HwB : (width <= b_cols B)%nat) by apply Nat.le_min_r.
  pose proof (grid_dims_split_src (length h + 1) height width bx B WB HhB HwB) as Gsrc.
  assert (Hpix : forall r c p,
            cell (window (split_view (length h + 1) height width bx) (b_data B)) r c = Some p ->
            length p = b_chans R0).
  { intros r c p Hc. destruct (cell_Some_lt _ _ _ _ _ _ Gsrc Hc) as [Hr Hc'].
    rewrite cell_window in Hc by assumption.
    simpl. rewrite HC. exact (wf_buffer_chans _ _ _ _ WB Hc). }
  rewrite (bind_ok _ _ _ _ _
             (setitem_array_run _ (split_view (length h + 2) height width bx)
                (split_view (length h + 1) height width bx) R0 B L2 L1
                (eq_sym HC) eq_refl eq_refl Gsrc Hpix)).
  cbn [base split_view]. rewrite (insert_app_r h [A; B; R0] 2). simpl insert.
  match goal with |- context [h ++ [A; B; ?x]] => change x with R1 end.
  clear L0 L1 L2 Gsrc Hpix. clearbody R0. clear R0.
  assert (G1 : grid_dims height width (b_data R1)) by now apply grid_dims_split_grid.
  assert (L2 : forall x, (h ++ [A; B; x]) !! (length h + 2)%nat = Some x)
    by (intros x; apply lookup_fresh).
  destruct (draws_line width bx).
  - (* result[:, start_x:end_x] = [255, 255, 255] *)
    assert (G2 : grid_dims height width (b_data R2)) by now apply grid_dims_line_grid.
    unfold bind at 1.
    rewrite (setitem_list_run _ (line_view (length h + 2) height width bx) white R1 (L2 R1)).
    change (length white) with 3%nat. cbn [b_chans R1].
    rewrite (Nat.eqb_sym 3). destruct (b_chans A =? 3)%nat.
    + cbn [base line_view]. rewrite (insert_app_r h [A; B; R1] 2). simpl insert.
      match goal with |- context [h ++ [A; B; ?x]] => change x with R2 end.
      rewrite (Image_fromarray_run _ (NdArray (length h + 2) 0 height 0 width) _ (L2 R2)). cbn [nrows ncols].
      rewrite (window_all _ _ _ _ G2), <- app_assoc, length_app. reflexivity.
    + reflexivity.
  - unfold bind at 1, ret.
    rewrite (Image_fromarray_run _ (NdArray (length h + 2) 0 height 0 width) _ (L2 R1)). cbn [nrows ncols].
    rewrite (window_all _ _ _ _ G1), <- app_assoc, length_app. reflexivity.
Qed.

(** ** Cells of the result *)

Lemma half_line_thickness : line_thickness / 2 = 1.
Proof. reflexivity. Qed.

Lemma draws_line_spec width bx :
  draws_line width bx = true <-> 0 < bx < Z.of_nat width - 1.
Proof. unfold draws_line. rewrite andb_true_iff, !Z.ltb_lt. tauto. Qed.

Lemma line_columns width bx :
  draws_line width bx = true ->
  start_x bx = bx - 1 /\ end_x width bx = bx + 1.
Proof.
  intros Hd. apply draws_line_spec in Hd.
  unfold start_x, end_x. rewrite half_line_thickness. lia.
Qed.

Lemma cell_split_grid height width bx dA dB r c :
  (r < height)%nat -> (c < width)%nat ->
  grid_dims height width (window (NdArray 0 0 height 0 width) dA) ->
  grid_dims height (width - clip_index width bx) (window (split_view 0 height width bx) dB) ->
  cell (split_grid height width bx dA dB) r c =
    if (clip_index width bx <=? c)%nat then cell dB r c else cell dA r c.
Proof.
  intros Hr Hc GA GB. pose proof (clip_index_le width bx) as Hs.
  unfold split_grid.
  rewrite (cell_write_window _ height width) by (simpl; auto; lia).
  simpl. destruct (decide _) as [Hin | Hout].
  - rewrite cell_window by (simpl; lia). simpl.
    replace (clip_index width bx <=? c)%nat with true by (symmetry; apply Nat.leb_le; lia).
    f_equal; lia.
  - replace (clip_index width bx <=? c)%nat with false by (symmetry; apply Nat.leb_gt; lia).
    now rewrite cell_window by (simpl; lia).
Qed.

Lemma cell_line_grid height width bx d r c :
  (r < height)%nat -> (c < width)%nat ->
  grid_dims height width d ->
  cell (line_grid height width bx d) r c =
    if (clip_index width (start_x bx) <=? c)%nat && (c <? clip_index width (end_x width bx))%nat
    then Some white else cell d r c.
Proof.
  intros Hr Hc G.
  pose proof (clip_index_le width (start_x bx)).
  pose proof (clip_index_le width (end_x width bx)).
  unfold line_grid.
  rewrite (cell_write_window _ height width) by (simpl; auto using grid_dims_replicate; lia).
  simpl. destruct (decide _) as [Hin | Hout].
  - rewrite cell_replicate by lia.
    replace (_ && _) with true; [reflexivity |].
    symmetry. apply andb_true_intro. split; [apply Nat.leb_le | apply Nat.ltb_lt]; lia.
  - replace (_ && _) with false; [reflexivity |].
    symmetry. apply andb_false_iff.
    destruct (decide (clip_index width (start_x bx) <= c)%nat);
      [right; apply Nat.ltb_ge | left; apply Nat.leb_gt]; lia.
Qed.

Lemma in_line_clip width bx c :
  draws_line width bx = true ->
  (clip_index width (start_x bx) <=? c)%nat && (c <? clip_index width (end_x width bx))%nat
  = in_line width bx c.
Proof.
  intros Hd. destruct (line_columns _ _ Hd) as [Es Ee].
  apply draws_line_spec in Hd. unfold in_line. rewrite Es, Ee.
  rewrite !clip_index_nonneg by lia.
  apply eq_true_iff_eq. rewrite !andb_true_iff, Nat.leb_le, Nat.ltb_lt, Z.leb_le, Z.ltb_lt.
  lia.
Qed.

(** The call returns when numpy accepts the colour of line 42: always when no
    line is drawn, and otherwise when the pixels have three channels. *)
Lemma create_spec (h : heap) image1 image2 A B f :
  h !! image1 = Some A -> h !! image2 = Some B ->
  wf_buffer A = true -> wf_buffer B = true -> b_chans A = b_chans B ->
  let height := Nat.min (b_rows A) (b_rows B) in
  let width := Nat.min (b_cols A) (b_cols B) in
  let bx := boundary_x width f in
  draws_line width bx = false \/ b_chans A = 3%nat ->
  exists R,
    create_before_after_comparison image1 image2 f h
      = (h ++ [A; B; R; R], inr (length h + 3)%nat)
    /\ b_rows R = height /\ b_cols R = width /\ b_chans R = b_chans A
    /\ wf_buffer R = true
    /\ forall r c, (r < height)%nat -> (c < width)%nat ->
         cell (b_data R) r c = composite_cell A B width bx r c.
Proof.
  intros H1 H2 WA WB HC height width bx Hline.
  pose proof (create_run h image1 image2 A B f H1 H2 WA WB HC) as Hrun.
  cbv zeta in Hrun. fold height width bx in Hrun.
  assert (HhA : (height <= b_rows A)%nat) by apply Nat.le_min_l.
  assert (HhB : (height <= b_rows B)%nat) by apply Nat.le_min_r.
  assert (HwA : (width <= b_cols A)%nat) by apply Nat.le_min_l.
  assert (HwB : (width <= b_cols B)%nat) by apply Nat.le_min_r.
  pose proof (grid_dims_split_grid height width bx A B WA WB HhA HwA HhB HwB) as G1.
  assert (Hafter : forall r c, (r < height)%nat -> (c < width)%nat ->
            cell (split_grid height width bx (b_data A) (b_data B)) r c =
              if from_image2 width bx c then cell (b_data B) r c else cell (b_data A) r c).
  { intros r c Hr Hc. apply cell_split_grid; auto.
    - now apply grid_dims_crop.
    - now apply grid_dims_split_src. }
  assert (Hsplit : forall r c p,
            cell (split_grid height width bx (b_data A) (b_data B)) r c = Some p ->
            length p = b_chans A).
  { intros r c p Hp. destruct (cell_Some_lt _ _ _ _ _ _ G1 Hp) as [Hr Hc].
    rewrite Hafter in Hp by assumption.
    destruct (from_image2 width bx c).
    - rewrite HC. exact (wf_buffer_chans _ _ _ _ WB Hp).
    - exact (wf_buffer_chans _ _ _ _ WA Hp). }
  destruct (draws_line width bx) eqn:Hd.
  - destruct Hline as [? | H3]; [discriminate |].
    rewrite H3 in Hrun. simpl in Hrun. rewrite H3.
    eexists. split; [exact Hrun |]. simpl.
    pose proof (grid_dims_line_grid height width bx _ G1) as G2.
    assert (Hcells : forall r c, (r < height)%nat -> (c < width)%nat ->
              cell (line_grid height width bx
                      (split_grid height width bx (b_data A) (b_data B))) r c
              = composite_cell A B width bx r c).
    { intros r c Hr Hc. rewrite cell_line_grid by assumption.
      rewrite in_line_clip by exact Hd. unfold composite_cell. rewrite Hd. simpl.
      destruct (in_line width bx c); [reflexivity |]. now apply Hafter. }
    repeat split; auto.
    apply wf_buffer_intro; [exact G2 |].
    intros r c p Hp. destruct (cell_Some_lt _ _ _ _ _ _ G2 Hp) as [Hr Hc].
    rewrite cell_line_grid in Hp by assumption.
    destruct (_ && _).
    + now injection Hp as <-.
    + rewrite <- H3. exact (Hsplit r c p Hp).
  - eexists. split; [exact Hrun |]. simpl. repeat split; auto.
    + now apply wf_buffer_intro.
    + intros r c Hr Hc. unfold composite_cell. rewrite Hd. simpl.
      now apply Hafter.
Qed.

(** Otherwise the assignment of line 42 raises, after lines 20 to 35. *)
Lemma create_error (h : heap) image1 image2 A B f :
  h !! image1 = Some A -> h !! image2 = Some B ->
  wf_buffer A = true -> wf_buffer B = true -> b_chans A = b_chans B ->
  let width := Nat.min (b_cols A) (b_cols B) in
  draws_line width (boundary_x width f) = true -> b_chans A <> 3%nat ->
  exists R,
    create_before_after_comparison image1 image2 f h = (h ++ [A; B; R], inl ValueError).
Proof.
  intros H1 H2 WA WB HC width Hd H3.
  pose proof (create_run h image1 image2 A B f H1 H2 WA WB HC) as Hrun.
  cbv zeta in Hrun. fold width in Hrun. rewrite Hd in Hrun.
  apply Nat.eqb_neq in H3. rewrite H3 in Hrun. eauto.
Qed.

(** ** The boundary column *)

Lemma boundary_x_unfold width f :
  boundary_x width f = Z.quot (Z.of_nat width * Qnum f) (Zpos (Qden f)).
Proof. reflexivity. Qed.

Lemma boundary_x_floor width f :
  (0 <= f)%Q -> boundary_x width f = Qfloor (inject_Z (Z.of_nat width) * f).
Proof.
  intros Hf. rewrite boundary_x_unfold. unfold Qle in Hf. simpl in Hf.
  rewrite Z.quot_div_nonneg by lia. reflexivity.
Qed.

Lemma boundary_x_0 width : boundary_x width 0 = 0.
Proof. rewrite boundary_x_unfold. simpl. now rewrite Z.mul_0_r. Qed.

Lemma boundary_x_1 width : boundary_x width 1 = Z.of_nat width.
Proof. rewrite boundary_x_unfold. simpl. now rewrite Z.mul_1_r, Z.quot_1_r. Qed.

Lemma boundary_x_range width f :
  (0 <= f)%Q -> (f <= 1)%Q -> 0 <= boundary_x width f <= Z.of_nat width.
Proof.
  intros H0 H1. rewrite boundary_x_unfold. unfold Qle in H0, H1. simpl in H0, H1.
  rewrite Z.quot_div_nonneg by lia. split.
  - apply Z.div_pos; lia.
  - apply Z.div_le_upper_bound; nia.
Qed.

Lemma boundary_x_mono width f1 f2 :
  (0 <= f1)%Q -> (f1 <= f2)%Q -> boundary_x width f1 <= boundary_x width f2.
Proof.
  intros H0 H12. assert (H2 : (0 <= f2)%Q) by (eapply Qle_trans; eauto).
  rewrite !boundary_x_floor by assumption.
  apply Qfloor_resp_le, Qmult_le_compat_nonneg; [| now split].
  split; [| apply Qle_refl]. unfold Qle. simpl. lia.
Qed.

(** At or above 1 the boundary is at or beyond the right edge. *)
Lemma boundary_x_beyond width f :
  (1 <= f)%Q -> Z.of_nat width <= boundary_x width f.
Proof.
  intros Hf. rewrite <- (boundary_x_1 width). now apply boundary_x_mono.
Qed.

(** [int] rounds toward zero: half the width, rounded down, negated. *)
Lemma boundary_x_minus_half width :
  boundary_x width (-1 # 2) = - (Z.of_nat width / 2).
Proof.
  rewrite boundary_x_unfold. simpl.
  replace (Z.of_nat width * -1) with (- Z.of_nat width) by lia.
  rewrite Z.quot_opp_l by lia. rewrite Z.quot_div_nonneg by lia. reflexivity.
Qed.

Lemma clip_index_beyond width i : Z.of_nat width <= i -> clip_index width i = width.
Proof. intros Hi. rewrite clip_index_nonneg; lia. Qed.

Lemma draws_line_beyond width i : Z.of_nat width <= i -> draws_line width i = false.
Proof.
  intros Hi. destruct (draws_line width i) eqn:E; [| reflexivity].
  apply draws_line_spec in E. lia.
Qed.

Lemma draws_line_nonpos width i : i <= 0 -> draws_line width i = false.
Proof.
  intros Hi. destruct (draws_line width i) eqn:E; [| reflexivity].
  apply draws_line_spec in E. lia.
Qed.

(** ** The result as the caller sees it *)


Lemma create_returns (h : heap) image1 image2 A B f :
  h !! image1 = Some A -> h !! image2 = Some B ->
  wf_buffer A = true -> wf_buffer B = true -> b_chans A = b_chans B ->
  let height := Nat.min (b_rows A) (b_rows B) in
  let width := Nat.min (b_cols A) (b_cols B) in
  let bx := boundary_x width f in
  draws_line width bx = false \/ b_chans A = 3%nat ->
  exists h' out R,
    create_before_after_comparison image1 image2 f h = (h', inr out)
    /\ h' !! out = Some R
    /\ b_rows R = height /\ b_cols R = width /\ b_chans R = b_chans A
    /\ wf_buffer R = true
    /\ forall r c, (r < height)%nat -> (c < width)%nat ->
         pixel_at h' out r c = composite_cell A B width bx r c.
Proof.
  intros H1 H2 WA WB HC height width bx Hline.
  destruct (create_spec h image1 image2 A B f H1 H2 WA WB HC Hline)
    as (R & Hrun & Hr & Hc & Hch & HW & Hcells).
  assert (HR : (h ++ [A; B; R; R]) !! (length h + 3)%nat = Some R) by apply lookup_fresh.
  exists (h ++ [A; B; R; R]), (length h + 3)%nat, R.
  repeat split; auto.
  intros r c Hlt Hlt'. unfold pixel_at. rewrite HR. now apply Hcells.
Qed.

(** On images of one shape nothing is cropped. *)
Lemma create_returns_same (h : heap) image1 image2 A B f :
  h !! image1 = Some A -> h !! image2 = Some B ->
  wf_buffer A = true -> wf_buffer B = true -> same_shape A B ->
  let bx := boundary_x (b_cols A) f in
  draws_line (b_cols A) bx = false \/ b_chans A = 3%nat ->
  exists h' out R,
    create_before_after_comparison image1 image2 f h = (h', inr out)
    /\ h' !! out = Some R
    /\ b_rows R = b_rows A /\ b_cols R = b_cols A /\ b_chans R = b_chans A
    /\ wf_buffer R = true
    /\ forall r c, (r < b_rows A)%nat -> (c < b_cols A)%nat ->
         pixel_at h' out r c = composite_cell A B (b_cols A) bx r c.
Proof.
  intros H1 H2 WA WB (Er & Ec & Ech) bx Hline.
  pose proof (create_returns h image1 image2 A B f H1 H2 WA WB Ech) as Hret.
  cbv zeta in Hret. rewrite <- Er, <- Ec, !Nat.min_id in Hret. now apply Hret.
Qed.

Lemma buffer_eq R A :
  wf_buffer R = true -> wf_buffer A = true ->
  b_rows R = b_rows A -> b_cols R = b_cols A -> b_chans R = b_chans A ->
  (forall r c, (r < b_rows A)%nat -> (c < b_cols A)%nat ->
     cell (b_data R) r c = cell (b_data A) r c) ->
  R = A.
Proof.
  intros WR WA Er Ec Ech Hcells.
  apply wf_buffer_dims in WR, WA. rewrite Er, Ec in WR.
  pose proof (grid_ext _ _ _ _ WR WA Hcells) as Ed.
  destruct R, A. simpl in *. congruence.
Qed.

Lemma from_image2_inside width bx c :
  0 <= bx -> from_image2 width bx c = true <-> bx <= Z.of_nat c \/ (width <= c)%nat.
Proof.
  intros Hbx. unfold from_image2. rewrite Nat.leb_le, clip_index_nonneg by exact Hbx. lia.
Qed.


(** The line spans the two columns [bx - 1] and [bx]. *)
Lemma in_line_two_columns width bx c :
  draws_line width bx = true ->
  in_line width bx c = true <-> Z.of_nat c = bx - 1 \/ Z.of_nat c = bx.
Proof.
  intros Hd. destruct (line_columns _ _ Hd) as [Es Ee].
  unfold in_line. rewrite Es, Ee, andb_true_iff, Z.leb_le, Z.ltb_lt. lia.
Qed.

(** ** Properties of the compositor *)







(** C5.  On two images of one shape, of any width, fraction 0 gives back
    the second image exactly and fraction 1 the first image exactly; no line is
    drawn in either case. *)
Theorem identity_at_extremes (h : heap) image1 image2 A B :
  h !! image1 = Some A -> h !! image2 = Some B ->
  wf_buffer A = true -> wf_buffer B = true -> same_shape A B ->
  (draws_line (b_cols A) (boundary_x (b_cols A) 0) = false
   /\ exists h' out,
        create_before_after_comparison image1 image2 0 h = (h', inr out)
        /\ h' !! out = Some B)
  /\ (draws_line (b_cols A) (boundary_x (b_cols A) 1) = false
      /\ exists h' out,
           create_before_after_comparison image1 image2 1 h = (h', inr out)
           /\ h' !! out = Some A).
Proof.
  intros H1 H2 WA WB HS.
  assert (Hd0 : draws_line (b_cols A) (boundary_x (b_cols A) 0) = false).
  { apply draws_line_nonpos. rewrite boundary_x_0. lia. }
  assert (Hd1 : draws_line (b_cols A) (boundary_x (b_cols A) 1) = false).
  { apply draws_line_beyond. rewrite boundary_x_1. lia. }
  pose proof HS as (Er & Ec & Ech).
  split; (split; [assumption |]).
  - destruct (create_returns_same h image1 image2 A B 0 H1 H2 WA WB HS (or_introl Hd0))
      as (h' & out & R & Hrun & HR & Hr & Hc & Hch & HW & Hcells).
    exists h', out. split; [exact Hrun |]. rewrite HR. f_equal.
    apply buffer_eq; try congruence.
    intros r c Hlt Hlt'. rewrite <- Er in Hlt. rewrite <- Ec in Hlt'.
    specialize (Hcells r c Hlt Hlt'). unfold pixel_at in Hcells. rewrite HR in Hcells.
    rewrite Hcells. unfold composite_cell. rewrite Hd0. simpl.
    rewrite boundary_x_0. unfold from_image2.
    assert (E0 : clip_index (b_cols A) 0 = 0%nat) by (rewrite clip_index_nonneg; lia).
    rewrite E0. reflexivity.
  - destruct (create_returns_same h image1 image2 A B 1 H1 H2 WA WB HS (or_introl Hd1))
      as (h' & out & R & Hrun & HR & Hr & Hc & Hch & HW & Hcells).
    exists h', out. split; [exact Hrun |]. rewrite HR. f_equal.
    apply buffer_eq; try congruence.
    intros r c Hlt Hlt'.
    specialize (Hcells r c Hlt Hlt'). unfold pixel_at in Hcells. rewrite HR in Hcells.
    rewrite Hcells. unfold composite_cell. rewrite Hd1. simpl.
    unfold from_image2. rewrite boundary_x_1, clip_index_of_nat by lia.
    now replace (b_cols A <=? c)%nat with false by (symmetry; apply Nat.leb_gt; lia).
Qed.

Lemma identity_at_extremes_witness :
  (draws_line 10 (boundary_x 10 0) = false
   /\ exists h' out,
        create_before_after_comparison 0 1 0 demo_heap = (h', inr out)
        /\ h' !! out = Some (solid 1 10 [9; 9; 9]))
  /\ (draws_line 10 (boundary_x 10 1) = false
      /\ exists h' out,
           create_before_after_comparison 0 1 1 demo_heap = (h', inr out)
           /\ h' !! out = Some (solid 1 10 [1; 1; 1])).
Proof.
  apply (identity_at_extremes demo_heap 0 1 (solid 1 10 [1; 1; 1]) (solid 1 10 [9; 9; 9]));
    try reflexivity.
  repeat split.
Defined.

(** C10.  The boundary column grows with the fraction: for
    [0 <= f1 <= f2 <= 1] the boundary of [f1] is at most the boundary of [f2],
    so every column that the slice [boundary_x:] of line 35 takes from the
    second image under [f2] is taken from it under [f1] as well. *)
Theorem split_monotone (W : nat) (f1 f2 : Q) :
  (0 <= f1)%Q -> (f1 <= f2)%Q -> (f2 <= 1)%Q ->
  boundary_x W f1 <= boundary_x W f2
  /\ forall c, (c < W)%nat ->
       from_image2 W (boundary_x W f2) c = true ->
       from_image2 W (boundary_x W f1) c = true.
Proof.
  intros H0 H12 H1.
  assert (H02 : (0 <= f2)%Q) by (eapply Qle_trans; eauto).
  assert (H11 : (f1 <= 1)%Q) by (eapply Qle_trans; eauto).
  pose proof (boundary_x_mono W f1 f2 H0 H12) as Hmono.
  split; [exact Hmono |].
  intros c Hc.
  pose proof (boundary_x_range W f1 H0 H11) as [Hlo1 _].
  pose proof (boundary_x_range W f2 H02 H1) as [Hlo2 _].
  rewrite !from_image2_inside by assumption. lia.
Qed.

Lemma split_monotone_witness :
  boundary_x 10 (1 # 4) <= boundary_x 10 (1 # 2)
  /\ forall c, (c < 10)%nat ->
       from_image2 10 (boundary_x 10 (1 # 2)) c = true ->
       from_image2 10 (boundary_x 10 (1 # 4)) c = true.
Proof.
  apply (split_monotone 10 (1 # 4) (1 # 2)); discriminate.
Defined.

(** C7.  Whatever the heap, the two references and the fraction, and whether
    the call returns or raises, every buffer of the heap before the call, the
    pixels of the two source images among them, is the same after it: the
    function writes to arrays it allocated itself. *)
Theorem sources_unchanged (h : heap) image1 image2 f h' res l b :
  create_before_after_comparison image1 image2 f h = (h', res) ->
  h !! l = Some b -> h' !! l = Some b.
Proof.
  intros Hrun Hl.
  destruct (fresh_only_create h image1 image2 f h (preserves_refl h)) as [[_ Hkeep] _].
  rewrite Hrun in Hkeep. simpl in Hkeep. now apply Hkeep.
Qed.

Lemma sources_unchanged_witness :
  fst (create_before_after_comparison 0 1 (1 # 2) demo_heap) !! 0%nat
    = Some (solid 1 10 [1; 1; 1])
  /\ fst (create_before_after_comparison 0 1 (1 # 2) demo_heap) !! 1%nat
    = Some (solid 1 10 [9; 9; 9]).
Proof.
  split.
  - apply (sources_unchanged demo_heap 0 1 (1 # 2) _
             (snd (create_before_after_comparison 0 1 (1 # 2) demo_heap)) 0%nat);
      reflexivity.
  - apply (sources_unchanged demo_heap 0 1 (1 # 2) _
             (snd (create_before_after_comparison 0 1 (1 # 2) demo_heap)) 1%nat);
      reflexivity.
Defined.

(** C2, as stated, fails below 0: on two 1 x 10 images the fraction -0.5
    leaves the left half of the first image in place, while the fraction 0
    gives the second image only. *)
Lemma clamp_below_counterexample :
  let low := create_before_after_comparison 0 1 (-1 # 2) demo_heap in
  let zero := create_before_after_comparison 0 1 0 demo_heap in
  b_data <$> returned low
    = Some [[[1; 1; 1]; [1; 1; 1]; [1; 1; 1]; [1; 1; 1]; [1; 1; 1];
             [9; 9; 9]; [9; 9; 9]; [9; 9; 9]; [9; 9; 9]; [9; 9; 9]]]
  /\ b_data <$> returned zero
    = Some [[[9; 9; 9]; [9; 9; 9]; [9; 9; 9]; [9; 9; 9]; [9; 9; 9];
             [9; 9; 9]; [9; 9; 9]; [9; 9; 9]; [9; 9; 9]; [9; 9; 9]]]
  /\ returned low <> returned zero.
Proof. vm_compute. repeat split. discriminate. Qed.

(** C2, amended.  On two images of one shape, the fraction 1.7 gives the
    same outcome as the fraction 1.  The fraction -0.5 is not clamped: with
    [k = floor (W / 2)], the boundary column is [-k], counted from the right
    edge; for [k = 0] every column comes from the second image, and otherwise
    the columns left of [W - k] come from the first image and the others from
    the second; no line is drawn. *)
Theorem clamp_above_only (h : heap) image1 image2 A B :
  h !! image1 = Some A -> h !! image2 = Some B ->
  wf_buffer A = true -> wf_buffer B = true -> same_shape A B ->
  create_before_after_comparison image1 image2 (17 # 10) h
    = create_before_after_comparison image1 image2 1 h
  /\ let W := b_cols A in
     let k := Z.of_nat W / 2 in
     boundary_x W (-1 # 2) = - k
     /\ exists h' out,
          create_before_after_comparison image1 image2 (-1 # 2) h = (h', inr out)
          /\ forall r c, (r < b_rows A)%nat -> (c < W)%nat ->
               pixel_at h' out r c =
                 if decide (0 < k /\ Z.of_nat c < Z.of_nat W - k)
                 then pixel_at h image1 r c
                 else pixel_at h image2 r c.
Proof.
  intros H1 H2 WA WB HS. pose proof HS as (Er & Ec & Ech). split.
  - rewrite (create_run h image1 image2 A B (17 # 10)), (create_run h image1 image2 A B 1)
      by assumption.
    cbv zeta. set (width := Nat.min (b_cols A) (b_cols B)).
    assert (Hhi : Z.of_nat width <= boundary_x width (17 # 10))
      by (apply boundary_x_beyond; discriminate).
    assert (Hone : Z.of_nat width <= boundary_x width 1)
      by (apply boundary_x_beyond; discriminate).
    rewrite !draws_line_beyond by assumption.
    unfold split_grid, split_view. rewrite !clip_index_beyond by assumption. reflexivity.
  - intros W k. split; [apply boundary_x_minus_half |].
    assert (Hk : 0 <= k <= Z.of_nat W) by (subst k; split; [apply Z.div_pos | apply Z.div_le_upper_bound]; lia).
    assert (Hd : draws_line W (boundary_x W (-1 # 2)) = false).
    { apply draws_line_nonpos. rewrite boundary_x_minus_half. fold k. lia. }
    destruct (create_returns_same h image1 image2 A B (-1 # 2) H1 H2 WA WB HS (or_introl Hd))
      as (h' & out & R & Hrun & _ & _ & _ & _ & _ & Hcells).
    exists h', out. split; [exact Hrun |].
    intros r c Hr Hc. rewrite (Hcells r c Hr Hc). fold W.
    unfold composite_cell. rewrite Hd. simpl. unfold pixel_at. rewrite H1, H2.
    unfold from_image2. rewrite boundary_x_minus_half. fold k. unfold clip_index.
    destruct (decide (0 < k /\ Z.of_nat c < Z.of_nat W - k)) as [[Hpos Hleft] | Hno].
    + replace (- k <? 0) with true by (symmetry; apply Z.ltb_lt; lia).
      now replace (_ <=? c)%nat with false by (symmetry; apply Nat.leb_gt; lia).
    + destruct (- k <? 0) eqn:E.
      * apply Z.ltb_lt in E.
        now replace (_ <=? c)%nat with true by (symmetry; apply Nat.leb_le; lia).
      * apply Z.ltb_ge in E.
        now replace (_ <=? c)%nat with true by (symmetry; apply Nat.leb_le; lia).
Qed.

Lemma clamp_above_only_witness :
  create_before_after_comparison 0 1 (17 # 10) demo_heap
    = create_before_after_comparison 0 1 1 demo_heap
  /\ boundary_x 10 (-1 # 2) = - (Z.of_nat 10 / 2)
     /\ exists h' out,
          create_before_after_comparison 0 1 (-1 # 2) demo_heap = (h', inr out)
          /\ forall r c, (r < 1)%nat -> (c < 10)%nat ->
               pixel_at h' out r c =
                 if decide (0 < Z.of_nat 10 / 2 /\ Z.of_nat c < Z.of_nat 10 - Z.of_nat 10 / 2)
                 then pixel_at demo_heap 0 r c
                 else pixel_at demo_heap 1 r c.
Proof.
  apply (clamp_above_only demo_heap 0 1 (solid 1 10 [1; 1; 1]) (solid 1 10 [9; 9; 9]));
    try reflexivity.
  repeat split.
Defined.

(** C1.  On two three-channel images of one shape, whenever the line is
    drawn (the boundary column [bx] has [0 < bx < W - 1]), the result is white
    in the columns [bx - 1] and [bx] of every row, and in column [bx + 1] it
    holds the pixel of the second image: the line is two columns wide, and the
    third column of a band centred at [bx] is not painted. *)
Theorem line_spans_two_columns (h : heap) image1 image2 A B f r :
  h !! image1 = Some A -> h !! image2 = Some B ->
  wf_buffer A = true -> wf_buffer B = true -> same_shape A B ->
  b_chans A = 3%nat ->
  let W := b_cols A in
  let bx := boundary_x W f in
  draws_line W bx = true ->
  (r < b_rows A)%nat ->
  exists h' out,
    create_before_after_comparison image1 image2 f h = (h', inr out)
    /\ pixel_at h' out r (Z.to_nat (bx - 1)) = Some [255; 255; 255]
    /\ pixel_at h' out r (Z.to_nat bx) = Some [255; 255; 255]
    /\ pixel_at h' out r (Z.to_nat (bx + 1)) = pixel_at h image2 r (Z.to_nat (bx + 1)).
Proof.
  intros H1 H2 WA WB HS H3 W bx Hd Hr.
  destruct (create_returns_same h image1 image2 A B f H1 H2 WA WB HS (or_intror H3))
    as (h' & out & R & Hrun & _ & _ & _ & _ & _ & Hcells).
  fold W bx in Hcells.
  pose proof (proj1 (draws_line_spec W bx) Hd) as Hbx.
  assert (Hwhite : forall c, Z.of_nat c = bx - 1 \/ Z.of_nat c = bx ->
            pixel_at h' out r c = Some [255; 255; 255]).
  { intros c Hc. rewrite Hcells by lia. unfold composite_cell.
    now rewrite Hd, (proj2 (in_line_two_columns W bx c Hd) Hc). }
  exists h', out. split; [exact Hrun |].
  split; [apply Hwhite; lia |]. split; [apply Hwhite; lia |].
  rewrite Hcells by lia. unfold composite_cell, pixel_at. rewrite Hd, H2.
  destruct (in_line W bx (Z.to_nat (bx + 1))) eqn:Ein.
  - apply (in_line_two_columns W bx _ Hd) in Ein. lia.
  - simpl. pose proof (from_image2_inside W bx (Z.to_nat (bx + 1)) ltac:(lia)) as Hfrom.
    destruct (from_image2 W bx (Z.to_nat (bx + 1))); [reflexivity |].
    assert (false = true) by (apply Hfrom; left; lia). discriminate.
Qed.

Lemma line_spans_two_columns_witness :
  exists h' out,
    create_before_after_comparison 0 1 (3 # 8) line_heap = (h', inr out)
    /\ pixel_at h' out 1 2 = Some [255; 255; 255]
    /\ pixel_at h' out 1 3 = Some [255; 255; 255]
    /\ pixel_at h' out 1 4 = Some [40; 50; 60].
Proof.
  apply (line_spans_two_columns line_heap 0 1
           (solid 2 8 [10; 20; 30]) (solid 2 8 [40; 50; 60]) (3 # 8) 1%nat);
    try reflexivity.
  - repeat split.
  - apply Nat.lt_succ_diag_r.
Defined.

(** C3.  On two images of one channel layout other than three channels,
    whenever the line is to be drawn the call raises [ValueError]: numpy does
    not broadcast the three-element colour of line 42 to the pixels. *)
Theorem line_raises_unless_three_channels (h : heap) image1 image2 A B f :
  h !! image1 = Some A -> h !! image2 = Some B ->
  wf_buffer A = true -> wf_buffer B = true -> b_chans A = b_chans B ->
  let width := Nat.min (b_cols A) (b_cols B) in
  draws_line width (boundary_x width f) = true ->
  b_chans A <> 3%nat ->
  exists h', create_before_after_comparison image1 image2 f h = (h', inl ValueError).
Proof.
  intros H1 H2 WA WB HC width Hd H3.
  destruct (create_error h image1 image2 A B f H1 H2 WA WB HC Hd H3) as [R Hrun].
  eauto.
Qed.

Lemma line_raises_unless_three_channels_witness :
  exists h', create_before_after_comparison 0 1 (1 # 2) rgba_heap = (h', inl ValueError).
Proof.
  apply (line_raises_unless_three_channels rgba_heap 0 1
           (solid 1 3 [1; 1; 1; 255]) (solid 1 3 [9; 9; 9; 255]) (1 # 2));
    try reflexivity.
  discriminate.
Defined.

(** C9.  The run of the scenario: width 10, height 1, first image all
    (1,1,1), second all (9,9,9), fraction 0.5.  The boundary column is 5;
    columns 0 to 3 are (1,1,1), columns 4 and 5 are white, and columns 6 to 9
    are (9,9,9). *)
Theorem scenario_row :
  boundary_x 10 (1 # 2) = 5
  /\ b_data <$> returned (create_before_after_comparison 0 1 (1 # 2) demo_heap)
     = Some [[[1; 1; 1]; [1; 1; 1]; [1; 1; 1]; [1; 1; 1];
              [255; 255; 255]; [255; 255; 255];
              [9; 9; 9]; [9; 9; 9]; [9; 9; 9]; [9; 9; 9]]].
Proof. split; reflexivity. Qed.

(** ** Further properties of the compositor *)





Lemma yields_bind {A B} (m : M A) (k : A -> M B) Q :
  (forall x, yields (k x) Q) -> yields (bind m k) Q.
Proof.
  intros Hk h h' y Hrun. unfold bind in Hrun.
  destruct (m h) as [h1 [e | x]]; [discriminate |].
  exact (Hk x h1 h' y Hrun).
Qed.

Lemma yields_Image_fromarray a :
  yields (Image_fromarray a) (fun h' out => is_Some (h' !! out)).
Proof.
  intros h h' out Hrun. unfold Image_fromarray, read, bind, load, ret, alloc in Hrun.
  destruct (h !! base a) as [b |]; [| discriminate].
  injection Hrun as <- <-. rewrite list_lookup_middle by reflexivity. eauto.
Qed.

Lemma fresh_only_create_out h0 image1 image2 slider_position :
  fresh_only h0 (create_before_after_comparison image1 image2 slider_position)
    (fun out => (length h0 <= out)%nat).
Proof.
  unfold create_before_after_comparison.
  eapply fresh_only_bind; [apply fresh_only_np_array |]. intros img1_np _.
  eapply fresh_only_bind; [apply fresh_only_np_array |]. intros img2_np _.
  eapply fresh_only_bind; [apply fresh_only_np_copy |]. intros result Hres.
  eapply fresh_only_bind.
  { apply fresh_only_setitem_array. now rewrite base_getitem. }
  intros _ _. eapply fresh_only_bind.
  { destruct (draws_line _ _).
    - apply fresh_only_setitem_list. now rewrite base_getitem.
    - now apply fresh_only_ret. }
  intros _ _. unfold Image_fromarray.
  eapply fresh_only_bind; [apply fresh_only_read |]. intros v _.
  apply fresh_only_alloc.
Qed.

(** X3.  The image returned is a new object: it is in the heap after the
    call and was at no location of the heap before it, so it is none of the
    objects, the two source images among them, that the caller had. *)
Theorem result_is_new (h : heap) image1 image2 f h' out :
  create_before_after_comparison image1 image2 f h = (h', inr out) ->
  h !! out = None /\ is_Some (h' !! out).
Proof.
  intros Hrun. split.
  - destruct (fresh_only_create_out h image1 image2 f h (preserves_refl h)) as [_ Hout].
    rewrite Hrun in Hout. specialize (Hout out eq_refl).
    apply lookup_ge_None. lia.
  - revert h h' out Hrun.
    change (yields (create_before_after_comparison image1 image2 f)
              (fun h' out => is_Some (h' !! out))).
    unfold create_before_after_comparison.
    do 5 (apply yields_bind; intros ?). apply yields_Image_fromarray.
Qed.

Lemma result_is_new_witness :
  ramp_heap !! 5%nat = None
  /\ is_Some (fst (create_before_after_comparison 0 1 (1 # 4) ramp_heap) !! 5%nat).
Proof.
  apply (result_is_new ramp_heap 0 1 (1 # 4)). reflexivity.
Defined.














